(** * Source resolution, aggregation and query dispatch of adblock-rust-check

    A shallow embedding of [src/lib/util.js] and of the command-line driver
    [src/unnamed/part_000].  JavaScript strings are [String.string]; the
    string methods the code uses ([split('\n')], [join('\n')], [slice]) are
    written out below.  The sanitizer [sanitizeABPInput] and the matching
    engine are external collaborators: they are kept abstract (section
    variables) wherever the statements allow it. *)

From Stdlib Require Import String Ascii List Bool Arith Lia ZArith Permutation.
From Stdlib Require Import Numbers.DecimalString.
Import ListNotations.
Open Scope string_scope.

(* ------------------------------------------------------------------ *)
(** ** JavaScript string helpers *)

Definition nl_char : ascii := Ascii.ascii_of_nat 10.
Definition nl : string := String nl_char EmptyString.

(** [s.split('\n')]: the empty string splits to [[""]], and a trailing
    newline yields a trailing empty segment. *)
Fixpoint split_nl (s : string) : list string :=
  match s with
  | EmptyString => [""]
  | String c r =>
      if Ascii.eqb c nl_char then "" :: split_nl r
      else match split_nl r with
           | [] => [String c ""]
           | x :: xs => String c x :: xs
           end
  end.

(** [arr.join('\n')]. *)
Fixpoint join_nl (l : list string) : string :=
  match l with
  | [] => ""
  | [x] => x
  | x :: xs => x ++ nl ++ join_nl xs
  end.

(** A string without any newline character. *)
Fixpoint no_nl (s : string) : bool :=
  match s with
  | EmptyString => true
  | String c r => negb (Ascii.eqb c nl_char) && no_nl r
  end.

(** Number of newline characters of a string. *)
Fixpoint count_nl (s : string) : nat :=
  match s with
  | EmptyString => 0
  | String c r => (if Ascii.eqb c nl_char then 1 else 0) + count_nl r
  end.

(** [Array.prototype.slice(k)] for a non-negative [k]. *)
Definition slice {A} (k : nat) (l : list A) : list A := skipn k l.

(** Template literal rendering of a number: [`${n}`]. *)
Definition Z_to_string (z : Z) : string :=
  NilEmpty.string_of_int (Z.to_int z).

(* ------------------------------------------------------------------ *)
(** ** Transform registry: [getListFilterFunction] (util.js 110-116) *)

Definition registered_uuid : string := "FBB430E8-3910-4761-9373-840FC3B43FF2".

(** The registered transform:
    [input.split('\n').slice(4).map((line) => `||${line}`).join('\n')]. *)
Definition domain_list_filter (input : string) : string :=
  join_nl (map (fun line => "||" ++ line) (slice 4 (split_nl input))).

(** [undefined] is [None]. *)
Definition getListFilterFunction (uuid : string) : option (string -> string) :=
  if String.eqb uuid registered_uuid then Some domain_list_filter else None.

(** [if (filter) { body = filter(body) }], as written in the fetch callbacks. *)
Definition apply_filter (filter : option (string -> string)) (body : string) : string :=
  match filter with
  | Some f => f body
  | None => body
  end.

(* ------------------------------------------------------------------ *)
(** ** Client construction from text: [makeAdBlockClientFromString]
    (util.js 17-28) *)

(** The engine is opaque; a client built from text is determined by the
    ordered sequence of lines handed to [new Engine(...)]. *)
Record Engine := mkEngine { engine_rules : list string }.

(** [filterRuleData] is either a string or an array of strings
    ([filterRuleData.constructor === Array]). *)
Inductive rule_data :=
| RDString (s : string)
| RDArray (l : list string).

Definition makeAdBlockClientFromString (filterRuleData : rule_data) : Engine :=
  let rules := match filterRuleData with
               | RDArray l => join_nl l
               | RDString s => s
               end in
  mkEngine (split_nl rules).

(* ------------------------------------------------------------------ *)
(** ** Promises settled through the event loop *)

Inductive settled (A : Type) :=
| Pending
| Fulfilled (a : A)
| Rejected (msg : string).
Arguments Pending {A}.
Arguments Fulfilled {A} a.
Arguments Rejected {A} msg.

(** Replace the [i]-th element; out of range the list is unchanged (the
    combinator below only writes the slots it allocated). *)
Fixpoint set_nth {A} (i : nat) (x : A) (l : list A) : list A :=
  match l, i with
  | [], _ => []
  | _ :: l', O => x :: l'
  | y :: l', S i' => y :: set_nth i' x l'
  end.

(** All slots filled: the array of their values. *)
Fixpoint collect {A} (l : list (option A)) : option (list A) :=
  match l with
  | [] => Some []
  | None :: _ => None
  | Some x :: l' => match collect l' with
                    | Some xs => Some (x :: xs)
                    | None => None
                    end
  end.

(** The state of [Promise.all(ps)]: one result slot per input promise, in
    input order, and the settlement of the combined promise. *)
Record all_state := mkAllState {
  slots : list (option string);
  verdict : settled (list string)
}.

(** [Promise.all] of an empty array is fulfilled at once with [[]]. *)
Definition all_init (n : nat) : all_state :=
  mkAllState (repeat None n)
             (match n with O => Fulfilled [] | S _ => Pending end).

(** Input promise [i] settles: [outs] gives each input promise's outcome
    ([inl] rejection message, [inr] value).  A rejection settles the
    combined promise at once; a value is stored in slot [i], and the
    combined promise is fulfilled when every slot is filled.  Once the
    combined promise is settled, later settlements are ignored. *)
Definition all_step (outs : list (string + string)) (st : all_state) (i : nat)
  : all_state :=
  match verdict st with
  | Pending =>
      match nth_error outs i with
      | Some (inl e) => mkAllState (slots st) (Rejected e)
      | Some (inr v) =>
          let s' := set_nth i (Some v) (slots st) in
          mkAllState s' (match collect s' with
                         | Some vs => Fulfilled vs
                         | None => Pending
                         end)
      | None => st
      end
  | _ => st
  end.

(** [Promise.all(ps)] when the input promises settle in the order [ord]
    (a list of indices into [ps]). *)
Definition promise_all (ord : list nat) (outs : list (string + string))
  : settled (list string) :=
  verdict (fold_left (all_step outs) ord (all_init (length outs))).

(* ------------------------------------------------------------------ *)
(** ** Remote lists (util.js 56-108) *)

(** What [request.get] hands to its callback: a transport [error], or a
    [response] with its [statusCode] and [body]. *)
Inductive response :=
| RTransportError (error : string)
| RResponse (statusCode : Z) (body : string).

(** The list source URL argument: a single string or an array of URLs. *)
Inductive list_url :=
| LUOne (url : string)
| LUArray (urls : list string).

(** [`${err}`] for an [Error] built with [new Error(msg)]. *)
Definition error_to_string (msg : string) : string := "Error: " ++ msg.

Section Pipeline.

(** [sanitizeABPInput] from [./filtering]: an external collaborator. *)
Variable sanitizeABPInput : string -> string.

(** The network: the response [request.get] delivers for each URL. *)
Variable net : string -> response.

(** [getSingleListDataFromSingleURL]: [inl msg] is a rejection with
    [new Error(msg)], [inr body] a resolution. *)
Definition getSingleListDataFromSingleURL (listURL : string)
    (filter : option (string -> string)) : string + string :=
  match net listURL with
  | RTransportError error => inl ("Request error: " ++ error)
  | RResponse statusCode body =>
      if negb (Z.eqb statusCode 200)
      then inl ("Error status code " ++ Z_to_string statusCode
                ++ " returned for URL: " ++ listURL)
      else inr (sanitizeABPInput (apply_filter filter body))
  end.

(** The message of the error [makeAdBlockClientFromListURL] rejects with. *)
Definition list_url_error (inner : string) : string :=
  "getSingleListDataFromSingleURL error: " ++ error_to_string inner.

(** [makeAdBlockClientFromListURL]; [ord] is the order in which the
    parallel requests of the array branch complete. *)
Definition makeAdBlockClientFromListURL (ord : list nat) (listURL : list_url)
    (filter : option (string -> string)) : settled Engine :=
  match listURL with
  | LUArray urls =>
      let requestPromises :=
        map (fun currentURL => getSingleListDataFromSingleURL currentURL filter) urls in
      match promise_all ord requestPromises with
      | Fulfilled results =>
          let body := sanitizeABPInput (join_nl results) in
          Fulfilled (makeAdBlockClientFromString (RDString body))
      | Rejected e => Rejected (list_url_error e)
      | Pending => Pending
      end
  | LUOne url =>
      match getSingleListDataFromSingleURL url filter with
      | inr listData =>
          let body := sanitizeABPInput listData in
          Fulfilled (makeAdBlockClientFromString (RDString body))
      | inl e => Rejected (list_url_error e)
      end
  end.

End Pipeline.

(** [getListBufferFromURL] (util.js 162-180): the same request, status
    check, transform and sanitizer as [getSingleListDataFromSingleURL],
    written out a second time. *)
Definition getListBufferFromURL (sanitizeABPInput : string -> string)
    (net : string -> response) (listURL : string)
    (filter : option (string -> string)) : string + string :=
  match net listURL with
  | RTransportError error => inl ("Request error: " ++ error)
  | RResponse statusCode body =>
      if negb (Z.eqb statusCode 200)
      then inl ("Error status code " ++ Z_to_string statusCode
                ++ " returned for URL: " ++ listURL)
      else inr (sanitizeABPInput (apply_filter filter body))
  end.

(* ------------------------------------------------------------------ *)
(** ** Local files: [makeAdBlockClientFromFilePath] (util.js 150-160) *)

(** The file system: the UTF-8 content of each readable path. *)
Definition file_system := string -> option string.

(** The error [fs.readFileSync] throws for a path it cannot read. *)
Definition enoent (path : string) : string :=
  "ENOENT: no such file or directory, open '" ++ path ++ "'".

(** [fs.readFileSync(path, 'utf8')]: [inl] is the thrown error's message. *)
Definition readFileSync (fs : file_system) (path : string) : string + string :=
  match fs path with
  | Some content => inr content
  | None => inl (enoent path)
  end.

(** [filePath.map((filePath) => fs.readFileSync(filePath, 'utf8'))]: the
    first unreadable path (in array order) throws. *)
Fixpoint readFileSync_all (fs : file_system) (paths : list string)
  : string + list string :=
  match paths with
  | [] => inr []
  | p :: ps =>
      match readFileSync fs p with
      | inl e => inl e
      | inr c => match readFileSync_all fs ps with
                 | inl e => inl e
                 | inr cs => inr (c :: cs)
                 end
      end
  end.

Inductive file_path_arg :=
| FPOne (path : string)
| FPArray (paths : list string).

(** A throw inside the promise executor rejects the promise. *)
Definition makeAdBlockClientFromFilePath (fs : file_system) (filePath : file_path_arg)
  : settled Engine :=
  match filePath with
  | FPArray paths =>
      match readFileSync_all fs paths with
      | inr filterRuleData => Fulfilled (makeAdBlockClientFromString (RDArray filterRuleData))
      | inl e => Rejected e
      end
  | FPOne path =>
      match readFileSync fs path with
      | inr filterRuleData => Fulfilled (makeAdBlockClientFromString (RDString filterRuleData))
      | inl e => Rejected e
      end
  end.

(** [readSiteList] (util.js 186-187): [fs.readFileSync(path, 'utf8').split('\n')]. *)
Definition readSiteList (fs : file_system) (path : string) : string + list string :=
  match readFileSync fs path with
  | inr content => inr (split_nl content)
  | inl e => inl e
  end.

(* ------------------------------------------------------------------ *)
(** ** Command-line options (part_000 29-42) *)

(** A [commander] option value: absent, a flag given without argument
    (optional-argument options then hold [true]), or a string. *)
Inductive jsval :=
| JUndefined
| JTrue
| JStr (s : string).

Definition truthy (v : jsval) : bool :=
  match v with
  | JUndefined => false
  | JTrue => true
  | JStr s => negb (String.eqb s "")
  end.

(** Template-literal rendering [`${v}`]. *)
Definition js_to_string (v : jsval) : string :=
  match v with
  | JUndefined => "undefined"
  | JTrue => "true"
  | JStr s => s
  end.

Record options := mkOptions {
  opt_uuid : jsval;
  opt_dat : jsval;
  opt_filter : jsval;
  opt_filterPath : jsval;
  opt_http : jsval;
  opt_host : jsval;
  opt_location : jsval;
  opt_output : jsval;
  opt_list : jsval;
  opt_stats : jsval;
  opt_filterOption : jsval
}.

(* ------------------------------------------------------------------ *)
(** ** Source selection (part_000 44-64) *)

(** The client-building call the driver makes, with its source argument. *)
Inductive source_call :=
| CallListUUID (uuid : jsval)
| CallDATFile (dat : jsval)
| CallListURL (http : jsval)
| CallString (filter : jsval)
| CallFilePath (filterPath : jsval)
| CallDefaultLists.

(** [(commander.host && (commander.location || commander.list)) || commander.stats] *)
Definition usage_guard (o : options) : bool :=
  (truthy (opt_host o) && (truthy (opt_location o) || truthy (opt_list o)))
  || truthy (opt_stats o).

(** [None]: [p] stays the usage rejection. *)
Definition source_selection (o : options) : option source_call :=
  if usage_guard o then
    Some (if truthy (opt_uuid o) then CallListUUID (opt_uuid o)
          else if truthy (opt_dat o) then CallDATFile (opt_dat o)
          else if truthy (opt_http o) then CallListURL (opt_http o)
          else if truthy (opt_filter o) then CallString (opt_filter o)
          else if truthy (opt_filterPath o) then CallFilePath (opt_filterPath o)
          else CallDefaultLists)
  else None.

(** The precedence in the words of the spec: the first present source of
    the ordered list catalog-identifier, snapshot-file, remote-URL,
    raw-filter-text, local-file-path; the built-in default catalog URL set
    when none is present. *)
Definition spec_source_precedence (o : options) : source_call :=
  match find (fun '(v, _) => truthy v)
             [(opt_uuid o, CallListUUID (opt_uuid o));
              (opt_dat o, CallDATFile (opt_dat o));
              (opt_http o, CallListURL (opt_http o));
              (opt_filter o, CallString (opt_filter o));
              (opt_filterPath o, CallFilePath (opt_filterPath o))] with
  | Some (_, c) => c
  | None => CallDefaultLists
  end.

(* ------------------------------------------------------------------ *)
(** ** The result handler (part_000 66-98) *)

(** A run of the handler either returns or throws (the error then reaches
    the final [.catch]). *)
Inductive outcome (A : Type) :=
| Ret (a : A)
| Throw (msg : string).
Arguments Ret {A} a.
Arguments Throw {A} msg.

Section Dispatch.

(** The opaque engine: its [check], [serialize] and [getParsingStats]. *)
Variables (Client Buffer Stats : Type).
Variable check : Client -> jsval -> jsval -> jsval -> bool.
Variable serialize : Client -> Buffer.
Variable getParsingStats : Client -> Stats.

(** The observable effects of the handler, in the order they happen. *)
Inductive event :=
| EParsingStats (stats : Stats)
| ECheck (a1 a2 a3 : jsval) (matched : bool)
| ECounts (matchCount skipCount : nat)
| EWriteFile (path : string) (buf : Buffer).

(** Trace-and-exception monad: the trace so far is threaded through. *)
Definition M (A : Type) : Type := list event -> outcome A * list event.

Definition ret {A} (a : A) : M A := fun tr => (Ret a, tr).
Definition throw {A} (msg : string) : M A := fun tr => (Throw msg, tr).
Definition emit (e : event) : M unit := fun tr => (Ret tt, (tr ++ [e])%list).
Definition bind {A B} (m : M A) (k : A -> M B) : M B :=
  fun tr => match m tr with
            | (Ret a, tr') => k a tr'
            | (Throw e, tr') => (Throw e, tr')
            end.

Local Notation "x <- m ;; k" := (bind m (fun x => k))
  (at level 61, m at next level, right associativity).
Local Notation "m ;; k" := (bind m (fun _ => k))
  (at level 61, right associativity).

(** A throwing call [f(...)] in JavaScript: [inl] is the thrown message. *)
Definition lift {A} (r : string + A) : M A :=
  match r with
  | inl e => throw e
  | inr a => ret a
  end.

(** The [forEach] loop of the batch mode, counting matches and skips. *)
Fixpoint batch_loop (o : options) (c : Client) (siteList : list string)
    (matchCount skipCount : nat) : M (nat * nat) :=
  match siteList with
  | [] => ret (matchCount, skipCount)
  | site :: rest =>
      let r := check c (JStr site) (opt_filterOption o) (opt_host o) in
      emit (ECheck (JStr site) (opt_filterOption o) (opt_host o) r) ;;
      (if r then batch_loop o c rest (S matchCount) skipCount
       else batch_loop o c rest matchCount (S skipCount))
  end.

(** [fs.readFileSync] given a non-string path throws a [TypeError]. *)
Definition path_of (v : jsval) : string + string :=
  match v with
  | JStr p => inr p
  | _ => inl "TypeError [ERR_INVALID_ARG_TYPE]: The path argument must be of type string"
  end.

(** Lines 71-92: a single query when [--location] is given, else the batch. *)
Definition query_phase (o : options) (fs : file_system) (c : Client) : M unit :=
  if truthy (opt_location o) then
    let origin := JStr ("https://" ++ js_to_string (opt_host o)) in
    emit (ECheck (opt_location o) origin (opt_filterOption o)
                 (check c (opt_location o) origin (opt_filterOption o)))
  else
    path <- lift (path_of (opt_list o)) ;;
    siteList <- lift (readSiteList fs path) ;;
    counts <- batch_loop o c siteList 0 0 ;;
    emit (ECounts (fst counts) (snd counts)).

(** Lines 93-95. *)
Definition persist_phase (o : options) (c : Client) : M unit :=
  if truthy (opt_output o) then
    path <- lift (path_of (opt_output o)) ;;
    emit (EWriteFile path (serialize c))
  else ret tt.

(** The handler given to [p.then]: the stats branch returns early. *)
Definition result_handler (o : options) (fs : file_system) (c : Client) : M unit :=
  if truthy (opt_stats o) then
    emit (EParsingStats (getParsingStats c))
  else
    query_phase o fs c ;;
    persist_phase o c.

End Dispatch.

Arguments EParsingStats {Buffer Stats} stats.
Arguments ECheck {Buffer Stats} a1 a2 a3 matched.
Arguments ECounts {Buffer Stats} matchCount skipCount.
Arguments EWriteFile {Buffer Stats} path buf.

(* ------------------------------------------------------------------ *)
(** ** Catalog lookup: [makeAdBlockClientFromListUUID] (util.js 127-141) *)

(** A list descriptor of the catalog of [adblock-rs]. *)
Record descriptor := mkDescriptor {
  d_uuid : string;
  d_url : list_url
}.

#[local] Set Warnings "-register-all".

(** The values the function body manipulates.  [VCatalogs cat] is the
    [lists] export of [adblock-rs]: [new lists(name)] is the catalog [cat name]. *)
Inductive value :=
| VUndefined
| VString (s : string)
| VDescriptor (d : descriptor)
| VArray (ds : list descriptor)
| VCatalogs (cat : string -> list descriptor)
| VObject (fields : list (string * value))
| VOpaque.

(** The errors a JavaScript evaluation throws. *)
Inductive js_error :=
| ReferenceError (msg : string)
| TypeError (msg : string).

(** A lexical binding: [let]/[const] bindings are hoisted to the top of
    their scope uninitialized (the temporal dead zone) until their
    declaration has been evaluated. *)
Inductive binding :=
| Uninitialized
| Initialized (v : value).

Definition scope := list (string * binding).

(** Identifier resolution along the scope chain (innermost first). *)
Fixpoint resolve_id (sc : scope) (x : string) : js_error + value :=
  match sc with
  | [] => inl (ReferenceError (x ++ " is not defined"))
  | (y, b) :: sc' =>
      if String.eqb x y then
        match b with
        | Uninitialized => inl (ReferenceError ("Cannot access '" ++ x ++ "' before initialization"))
        | Initialized v => inr v
        end
      else resolve_id sc' x
  end.

Definition js_bind {A B} (m : js_error + A) (k : A -> js_error + B) : js_error + B :=
  match m with
  | inl e => inl e
  | inr a => k a
  end.

Local Notation "x <-? m ;; k" := (js_bind m (fun x => k))
  (at level 61, m at next level, right associativity).

(** [new C(arg)]. *)
Definition js_new (C : value) (arg : string) : js_error + value :=
  match C with
  | VCatalogs cat => inr (VArray (cat arg))
  | _ => inl (TypeError "not a constructor")
  end.

(** [obj.prop] *)
Definition js_get (obj : value) (prop : string) : js_error + value :=
  match obj with
  | VObject fields =>
      inr (match find (fun '(k, _) => String.eqb k prop) fields with
           | Some (_, v) => v
           | None => VUndefined
           end)
  | VUndefined => inl (TypeError ("Cannot read properties of undefined (reading '" ++ prop ++ "')"))
  | _ => inr VUndefined
  end.

(** [arr.find((l) => l.uuid === uuid)]. *)
Definition js_find_uuid (arr : value) (uuid : string) : js_error + value :=
  match arr with
  | VArray ds =>
      inr (match find (fun d => String.eqb (d_uuid d) uuid) ds with
           | Some d => VDescriptor d
           | None => VUndefined
           end)
  | _ => inl (TypeError "find is not a function")
  end.

Definition js_falsy (v : value) : bool :=
  match v with
  | VUndefined => true
  | _ => false
  end.

(** The module scope of util.js when its functions run: the [require]d
    names and the [const] functions it declares. *)
Definition util_module_scope (lists : value) : scope :=
  [("request", Initialized VOpaque);
   ("sanitizeABPInput", Initialized VOpaque);
   ("fs", Initialized VOpaque);
   ("Engine", Initialized VOpaque);
   ("lists", Initialized lists);
   ("makeAdBlockClientFromString", Initialized VOpaque);
   ("makeAdBlockClientFromDATFile", Initialized VOpaque);
   ("getSingleListDataFromSingleURL", Initialized VOpaque);
   ("makeAdBlockClientFromListURL", Initialized VOpaque);
   ("getListFilterFunction", Initialized VOpaque);
   ("makeAdBlockClientFromListUUID", Initialized VOpaque);
   ("makeAdBlockClientFromFilePath", Initialized VOpaque);
   ("getListBufferFromURL", Initialized VOpaque);
   ("readSiteList", Initialized VOpaque)].

(** The scope of the function body on entry: its parameters and its
    hoisted, still uninitialized, [let list] and [const filterFn]. *)
Definition uuid_body_scope (lists : value) (uuid : string) : scope :=
  ([("uuid", Initialized (VString uuid));
   ("options", Initialized VUndefined);
   ("list", Uninitialized);
   ("filterFn", Uninitialized)]
  ++ util_module_scope lists)%list.

(** What a call returns or throws synchronously. *)
Inductive call_result (A : Type) :=
| Returns (a : A)
| Throws (e : js_error).
Arguments Returns {A} a.
Arguments Throws {A} e.

Section CatalogLookup.

Variable sanitizeABPInput : string -> string.
Variable net : string -> response.
Variable ord : list nat.

(** The body, statement by statement: the three lookups, the rejection
    when nothing is found, then the list-URL client of the descriptor. *)
Definition uuid_body (sc : scope) (uuid : string) : js_error + settled Engine :=
  l1 <-? (C <-? resolve_id sc "list" ;;
          arr <-? js_new C "default" ;;
          js_find_uuid arr uuid) ;;
  l2 <-? (if js_falsy l1 then
            obj <-? resolve_id sc "adBlockLists" ;;
            arr <-? js_get obj "regions" ;;
            js_find_uuid arr uuid
          else inr l1) ;;
  l3 <-? (if js_falsy l2 then
            obj <-? resolve_id sc "adBlockLists" ;;
            arr <-? js_get obj "malware" ;;
            js_find_uuid arr uuid
          else inr l2) ;;
  match l3 with
  | VDescriptor d =>
      inr (makeAdBlockClientFromListURL sanitizeABPInput net ord (d_url d)
             (getListFilterFunction uuid))
  | VUndefined => inr (Rejected ("No list found for UUID " ++ uuid))
  | _ => inl (TypeError "Cannot read properties of list")
  end.

Definition makeAdBlockClientFromListUUID (lists : value) (uuid : string)
  : call_result (settled Engine) :=
  match uuid_body (uuid_body_scope lists uuid) uuid with
  | inl e => Throws e
  | inr p => Returns p
  end.

End CatalogLookup.

(* ------------------------------------------------------------------ *)
(** ** Snapshots: [makeAdBlockClientFromDATFile] (util.js 34-47) *)

(** A Node [Buffer] is a view of [byteLength] bytes at [byteOffset] of an
    underlying [ArrayBuffer] ([data.buffer]), which may be a larger pool. *)
Record node_buffer := mkNodeBuffer {
  nb_pool : list Byte.byte;
  nb_byteOffset : nat;
  nb_byteLength : nat
}.

(** The bytes a [Buffer] stands for. *)
Definition buffer_bytes (b : node_buffer) : list Byte.byte :=
  firstn (nb_byteLength b) (skipn (nb_byteOffset b) (nb_pool b)).

(** [ArrayBuffer.prototype.slice(begin, end)] for non-negative indices: both
    are clamped to the length, and an empty range gives no bytes. *)
Definition array_buffer_slice (pool : list Byte.byte) (b e : nat) : list Byte.byte :=
  let first := Nat.min b (length pool) in
  let final := Nat.min e (length pool) in
  firstn (final - first) (skipn first pool).

(** [fs.readFile] of a binary file: the [Buffer] it delivers. *)
Definition binary_file_system := string -> option node_buffer.

(** A client built by [new Engine([])] on which [deserialize(buf)] was
    called: the rules it was constructed with and the bytes it was given. *)
Record snapshot_client := mkSnapshotClient {
  sc_rules : list string;
  sc_deserialized : list Byte.byte
}.

Definition makeAdBlockClientFromDATFile (fsb : binary_file_system) (datFilePath : string)
  : settled snapshot_client :=
  match fsb datFilePath with
  | None => Rejected (enoent datFilePath)
  | Some data =>
      let client := mkEngine [] in
      let buf := array_buffer_slice (nb_pool data) (nb_byteOffset data)
                   (nb_byteOffset data + nb_byteLength data) in
      Fulfilled (mkSnapshotClient (engine_rules client) buf)
  end.

(* ------------------------------------------------------------------ *)
(** ** The driver's first step (part_000 44-64) *)

(** The module scope of the driver: its [require]d names and [p];
    [parseOptions] is declared nowhere. *)
Definition check_module_scope : scope :=
  [("Url", Initialized VOpaque);
   ("commander", Initialized VOpaque);
   ("lists", Initialized VOpaque);
   ("makeAdBlockClientFromListUUID", Initialized VOpaque);
   ("makeAdBlockClientFromDATFile", Initialized VOpaque);
   ("makeAdBlockClientFromListURL", Initialized VOpaque);
   ("makeAdBlockClientFromString", Initialized VOpaque);
   ("makeAdBlockClientFromFilePath", Initialized VOpaque);
   ("readSiteList", Initialized VOpaque);
   ("p", Initialized VOpaque)].

Definition usage_message : string :=
  "Usage: node check.js --location <location> --host <host> [--uuid <uuid>]".

(** How the driver leaves line 64: [p] still the usage rejection, or the
    client-building call it made. *)
Inductive driver_start :=
| StartRejected (msg : string)
| StartCall (call : source_call).

(** Evaluating a call [f(arg, parseOptions)]: the callee, then the
    arguments, left to right. *)
Definition call_with_parse_options (callee : string) (call : source_call)
  : js_error + driver_start :=
  js_bind (resolve_id check_module_scope callee) (fun _ =>
  js_bind (resolve_id check_module_scope "parseOptions") (fun _ =>
  inr (StartCall call))).

(** Lines 44-64 (the console output aside). *)
Definition driver_first_step (o : options) : js_error + driver_start :=
  match source_selection o with
  | None => inr (StartRejected usage_message)
  | Some call =>
      match call with
      | CallListUUID _ => call_with_parse_options "makeAdBlockClientFromListUUID" call
      | CallDATFile _ =>
          js_bind (resolve_id check_module_scope "makeAdBlockClientFromDATFile")
                  (fun _ => inr (StartCall call))
      | CallListURL _ => call_with_parse_options "makeAdBlockClientFromListURL" call
      | CallString _ => call_with_parse_options "makeAdBlockClientFromString" call
      | CallFilePath _ => call_with_parse_options "makeAdBlockClientFromFilePath" call
      | CallDefaultLists =>
          js_bind (resolve_id check_module_scope "lists") (fun _ =>
          js_bind (resolve_id check_module_scope "makeAdBlockClientFromListURL")
                  (fun _ => inr (StartCall call)))
      end
  end.

(* ------------------------------------------------------------------ *)
(** ** Invariants of the [Promise.all] model *)

(** The slots after the input promises listed in [p] have been fulfilled
    with their values [vs] (slot [k + j] holds the [j]-th value). *)
Fixpoint fill_from (k : nat) (p : list nat) (vs : list string) : list (option string) :=
  match vs with
  | [] => []
  | v :: vs' => (if existsb (Nat.eqb k) p then Some v else None) :: fill_from (S k) p vs'
  end.

(** Either still pending with slot [k] empty, or rejected with the
    message of one of the input promises [outs]. *)
Definition reject_inv (outs : list (string + string)) (k : nat) (st : all_state) : Prop :=
  (verdict st = Pending /\ nth_error (slots st) k = Some None)
  \/ (exists e, verdict st = Rejected e /\ In (inl e) outs).

(* ------------------------------------------------------------------ *)
(** ** Concrete inputs used to exercise the statements *)

(** A sanitizer in the style of ABP input cleaning: drops comment lines
    (those starting with [!]).  Only used on concrete examples. *)
Definition example_sanitizer (s : string) : string :=
  join_nl (filter (fun l => negb (String.prefix "!" l)) (split_nl s)).

Definition url_a : string := "https://lists.example.org/a.txt".
Definition url_b : string := "https://lists.example.org/b.txt".
Definition url_c : string := "https://lists.example.org/c.txt".
Definition url_missing : string := "https://lists.example.org/missing.txt".

Definition body_a : string := "! Title: list a" ++ nl ++ "||ads.example^".
Definition body_b : string := "||tracker.example^".
Definition body_c : string := "##.banner".

(** A network: three lists served, one URL answering 404, the rest
    unreachable. *)
Definition example_net (url : string) : response :=
  if String.eqb url url_a then RResponse 200 body_a
  else if String.eqb url url_b then RResponse 200 body_b
  else if String.eqb url url_c then RResponse 200 body_c
  else if String.eqb url url_missing then RResponse 404 ""
  else RTransportError "getaddrinfo ENOTFOUND".

(** A catalog whose [default] list holds the registered identifier. *)
Definition example_catalog (name : string) : list descriptor :=
  if String.eqb name "default"
  then [mkDescriptor registered_uuid (LUOne url_a)]
  else if String.eqb name "regions"
  then [mkDescriptor "9852EFC4-99E4-4F2D-A915-9C3196C7A1DE" (LUOne url_b)]
  else [].

(** Options of [--uuid <registered> --http <url_b> --host www.cnet.com
    --location <url>]. *)
Definition uuid_and_http_options : options :=
  mkOptions (JStr registered_uuid) JUndefined JUndefined JUndefined (JStr url_b)
            (JStr "www.cnet.com") (JStr "https://s0.2mdn.net/instream/html5/ima3.js")
            JUndefined JUndefined JUndefined (JStr "image").

(** Options of [--host www.cnet.com --list sites.txt] (the [-O] default
    [image] applies). *)
Definition batch_options : options :=
  mkOptions JUndefined JUndefined JUndefined JUndefined JUndefined
            (JStr "www.cnet.com") JUndefined JUndefined (JStr "sites.txt")
            JUndefined (JStr "image").

(** Options of [--uuid <registered> --stats --output out.dat]. *)
Definition stats_output_options : options :=
  mkOptions (JStr registered_uuid) JUndefined JUndefined JUndefined JUndefined
            JUndefined JUndefined (JStr "out.dat") JUndefined JTrue (JStr "image").

(** A file system with a site list and two rule files. *)
Definition example_fs (path : string) : option string :=
  if String.eqb path "sites.txt" then Some ("https://a.example/x.js" ++ nl ++ "https://b.example/y.png" ++ nl)
  else if String.eqb path "rules.txt" then Some body_a
  else if String.eqb path "more.txt" then Some body_b
  else None.

(** A trivial engine for concrete runs: clients are their rule lines, no
    request matches, the buffer is the rule text, the stats its length. *)
Definition example_check (_ : Engine) (_ _ _ : jsval) : bool := false.
Definition example_serialize (c : Engine) : string := join_nl (engine_rules c).
Definition example_stats (c : Engine) : nat := length (engine_rules c).

(** Options of [--host www.cnet.com --list sites.txt --output out.dat]. *)
Definition batch_output_options : options :=
  mkOptions JUndefined JUndefined JUndefined JUndefined JUndefined
            (JStr "www.cnet.com") JUndefined (JStr "out.dat") (JStr "sites.txt")
            JUndefined (JStr "image").

(** The text of a file whose lines [ls] each end in a newline. *)
Fixpoint lines_file (ls : list string) : string :=
  match ls with
  | [] => ""
  | l :: ls' => l ++ nl ++ lines_file ls'
  end.

(** Options of [--host www.cnet.com --list sites.txt --output] (no path). *)
Definition batch_output_flag_options : options :=
  mkOptions JUndefined JUndefined JUndefined JUndefined JUndefined
            (JStr "www.cnet.com") JUndefined JTrue (JStr "sites.txt")
            JUndefined (JStr "image").

(* ================================================================== *)
(** * Properties *)

(** ** Strings: [split('\n')] undoes [join('\n')] on newline-free lines *)

Lemma str_app_nil_r (s : string) : s ++ "" = s.
Proof. induction s as [|c s IH]; simpl; [reflexivity | now rewrite IH]. Qed.

Lemma str_app_assoc (a b c : string) : (a ++ b) ++ c = a ++ (b ++ c).
Proof. induction a as [|x a IH]; simpl; [reflexivity | now rewrite IH]. Qed.

Lemma split_nl_not_nil (s : string) : split_nl s <> [].
Proof.
  induction s as [|c s IH]; simpl; [discriminate|].
  destruct (Ascii.eqb c nl_char); [discriminate|].
  destruct (split_nl s); discriminate.
Qed.

Lemma split_nl_app_no_nl (x s : string) :
  no_nl x = true ->
  split_nl (x ++ s) = match split_nl s with
                      | [] => [x]
                      | y :: ys => (x ++ y) :: ys
                      end.
Proof.
  induction x as [|c x IH]; simpl; intros Hx.
  - destruct (split_nl s) eqn:E; [now apply split_nl_not_nil in E | reflexivity].
  - apply andb_prop in Hx as [Hc Hx].
    apply negb_true_iff in Hc. rewrite Hc, (IH Hx).
    destruct (split_nl s); reflexivity.
Qed.

Lemma split_nl_nl (s : string) : split_nl (nl ++ s) = "" :: split_nl s.
Proof. reflexivity. Qed.

Lemma split_nl_no_nl (x : string) : no_nl x = true -> split_nl x = [x].
Proof.
  intros Hx. rewrite <- (str_app_nil_r x) at 1.
  rewrite (split_nl_app_no_nl x "" Hx). simpl. now rewrite str_app_nil_r.
Qed.

Lemma split_join_nl (l : list string) :
  l <> [] -> Forall (fun x => no_nl x = true) l -> split_nl (join_nl l) = l.
Proof.
  induction l as [|x l IH]; intros Hne Hl; [congruence|].
  inversion Hl as [|? ? Hx Hrest]; subst.
  destruct l as [|y l'].
  - simpl. now apply split_nl_no_nl.
  - change (join_nl (x :: y :: l')) with (x ++ nl ++ join_nl (y :: l')).
    rewrite (split_nl_app_no_nl _ _ Hx), split_nl_nl, IH; [|discriminate|exact Hrest].
    now rewrite str_app_nil_r.
Qed.

(** ** Transform registry *)

(** Any other identifier: the callbacks leave the body as it is. *)
Lemma unregistered_filter_identity (uuid body : string) :
  uuid <> registered_uuid -> apply_filter (getListFilterFunction uuid) body = body.
Proof.
  intros H. unfold getListFilterFunction.
  now rewrite (proj2 (String.eqb_neq _ _) H).
Qed.

Lemma domain_list_filter_join (hs ds : list string) :
  length hs = 4 -> ds <> [] ->
  Forall (fun x => no_nl x = true) (hs ++ ds) ->
  domain_list_filter (join_nl (hs ++ ds)) = join_nl (map (fun line => "||" ++ line) ds).
Proof.
  intros Hlen Hds Hall. unfold domain_list_filter, slice.
  rewrite split_join_nl; [| destruct hs; simpl in *; [now destruct ds|discriminate] | exact Hall].
  rewrite skipn_app, Hlen.
  replace (skipn 4 hs) with (@nil string) by (apply eq_sym, length_zero_iff_nil; rewrite length_skipn; lia).
  reflexivity.
Qed.

(** Claim C8: the transform registered for
    FBB430E8-3910-4761-9373-840FC3B43FF2, applied to a text of exactly four
    header lines followed by the lines d1, d2, d3, yields exactly
    "||d1\n||d2\n||d3"; for every other identifier the lookup gives no
    transform and the fetched body is left unchanged. *)
Theorem registered_transform_header_lines (h1 h2 h3 h4 d1 d2 d3 : string) :
  Forall (fun x => no_nl x = true) [h1; h2; h3; h4; d1; d2; d3] ->
  apply_filter (getListFilterFunction registered_uuid)
    (join_nl [h1; h2; h3; h4; d1; d2; d3])
  = "||" ++ d1 ++ nl ++ "||" ++ d2 ++ nl ++ "||" ++ d3
  /\ (forall uuid body, uuid <> registered_uuid ->
        apply_filter (getListFilterFunction uuid) body = body).
Proof.
  intros Hall. split; [|exact unregistered_filter_identity].
  unfold getListFilterFunction. rewrite String.eqb_refl. cbn [apply_filter].
  change [h1; h2; h3; h4; d1; d2; d3] with ([h1; h2; h3; h4] ++ [d1; d2; d3])%list.
  rewrite (domain_list_filter_join [h1; h2; h3; h4] [d1; d2; d3]);
    [| reflexivity | discriminate | exact Hall].
  simpl. rewrite ?str_app_assoc. reflexivity.
Qed.

Lemma registered_transform_header_lines_witness :
  Forall (fun x => no_nl x = true) ["! Title"; "! Version"; "! Expires"; "! Homepage";
                                    "a.com"; "b.org"; "c.net"] /\
  apply_filter (getListFilterFunction registered_uuid)
    (join_nl ["! Title"; "! Version"; "! Expires"; "! Homepage"; "a.com"; "b.org"; "c.net"])
  = "||" ++ "a.com" ++ nl ++ "||" ++ "b.org" ++ nl ++ "||" ++ "c.net".
Proof.
  assert (H : Forall (fun x => no_nl x = true)
                ["! Title"; "! Version"; "! Expires"; "! Homepage"; "a.com"; "b.org"; "c.net"])
    by (repeat constructor).
  split; [exact H|].
  exact (proj1 (registered_transform_header_lines _ _ _ _ _ _ _ H)).
Defined.

(** ** [Promise.all]: results in input order, whatever the completion order *)

Section PromiseAll.

Local Open Scope list_scope.

Lemma fill_from_nil (k : nat) (vs : list string) :
  fill_from k [] vs = repeat None (length vs).
Proof. revert k; induction vs as [|v vs IH]; intros k; simpl; [reflexivity | now rewrite IH]. Qed.

Lemma fill_from_cons_below (k i : nat) (p : list nat) (vs : list string) :
  i < k -> fill_from k (i :: p) vs = fill_from k p vs.
Proof.
  revert k; induction vs as [|v vs IH]; intros k Hi; simpl; [reflexivity|].
  replace (Nat.eqb k i) with false by (symmetry; apply Nat.eqb_neq; lia).
  simpl. rewrite IH by lia. reflexivity.
Qed.

Lemma set_nth_fill_from (k j : nat) (p : list nat) (vs : list string) (v : string) :
  nth_error vs j = Some v ->
  set_nth j (Some v) (fill_from k p vs) = fill_from k ((k + j) :: p) vs.
Proof.
  revert k j; induction vs as [|w vs IH]; intros k j Hj; [now destruct j|].
  destruct j as [|j]; simpl in Hj |- *.
  - injection Hj as ->. rewrite Nat.add_0_r, Nat.eqb_refl. simpl.
    now rewrite fill_from_cons_below by lia.
  - replace (Nat.eqb k (k + S j)) with false by (symmetry; apply Nat.eqb_neq; lia).
    simpl. rewrite (IH (S k) j Hj). now replace (S k + j) with (k + S j) by lia.
Qed.

Lemma existsb_eqb_In (k : nat) (p : list nat) : existsb (Nat.eqb k) p = true <-> In k p.
Proof.
  rewrite existsb_exists. split.
  - intros [x [Hx Hk]]. apply Nat.eqb_eq in Hk. now subst.
  - intros H. exists k. now rewrite Nat.eqb_refl.
Qed.

Lemma collect_fill_from_full (k : nat) (p : list nat) (vs : list string) :
  (forall j, j < length vs -> In (k + j) p) -> collect (fill_from k p vs) = Some vs.
Proof.
  revert k; induction vs as [|v vs IH]; intros k Hall; [reflexivity|].
  simpl. assert (Hk : In k p) by (rewrite <- (Nat.add_0_r k); apply Hall; simpl; lia).
  apply existsb_eqb_In in Hk. rewrite Hk.
  rewrite IH; [reflexivity|].
  intros j Hj. replace (S k + j) with (k + S j) by lia. apply Hall. simpl. lia.
Qed.

Lemma collect_fill_from_missing (k j : nat) (p : list nat) (vs : list string) :
  j < length vs -> ~ In (k + j) p -> collect (fill_from k p vs) = None.
Proof.
  revert k j; induction vs as [|v vs IH]; intros k j Hj Hn; simpl in Hj; [lia|].
  simpl. destruct j as [|j].
  - rewrite Nat.add_0_r in Hn.
    destruct (existsb (Nat.eqb k) p) eqn:E; [now apply existsb_eqb_In in E|reflexivity].
  - rewrite (IH (S k) j) by (lia || now replace (S k + j) with (k + S j) by lia).
    now destruct (existsb (Nat.eqb k) p).
Qed.

Variable vs : list string.

Lemma all_run_fulfilled (rest p : list nat) :
  rest <> [] ->
  NoDup (p ++ rest) ->
  (forall j, In j (p ++ rest) <-> j < length vs) ->
  verdict (fold_left (all_step (map inr vs)) rest (mkAllState (fill_from 0 p vs) Pending))
  = Fulfilled vs.
Proof.
  revert p; induction rest as [|i rest IH]; intros p Hne Hnd Hdom; [congruence|].
  assert (Hi : i < length vs) by (apply Hdom; apply in_or_app; simpl; auto).
  destruct (nth_error vs i) as [v|] eqn:Hv;
    [| apply nth_error_None in Hv; lia].
  simpl fold_left. unfold all_step at 2. simpl verdict.
  rewrite nth_error_map, Hv. simpl.
  rewrite (set_nth_fill_from 0 i p vs v Hv). simpl plus.
  assert (Hnd' : NoDup ((i :: p) ++ rest)).
  { apply Permutation_NoDup with (l := p ++ i :: rest); [|exact Hnd].
    simpl. apply Permutation_sym, Permutation_middle. }
  assert (Hdom' : forall j, In j ((i :: p) ++ rest) <-> j < length vs).
  { intros j. rewrite <- Hdom. split; intros H;
      [ apply Permutation_in with (l := (i :: p) ++ rest); [apply Permutation_middle|exact H]
      | apply Permutation_in with (l := p ++ i :: rest); [apply Permutation_sym, Permutation_middle|exact H]]. }
  destruct rest as [|i' rest'].
  - rewrite collect_fill_from_full; [reflexivity|].
    intros j Hj. apply Hdom' in Hj. now rewrite app_nil_r in Hj.
  - assert (Hi' : i' < length vs) by (apply Hdom'; apply in_or_app; simpl; auto).
    rewrite (collect_fill_from_missing 0 i' (i :: p) vs Hi').
    + apply IH; [discriminate | exact Hnd' | exact Hdom'].
    + simpl. apply NoDup_remove_2 with (l := i :: p) (l' := rest') (a := i') in Hnd'.
      intros Hin. apply Hnd'. apply in_or_app. now left.
Qed.

(** Whatever the order in which the input promises complete, the combined
    promise is fulfilled with the values in input order. *)
Lemma promise_all_in_input_order (ord : list nat) :
  Permutation ord (seq 0 (length vs)) ->
  promise_all ord (map inr vs) = Fulfilled vs.
Proof.
  intros Hperm. unfold promise_all. rewrite length_map.
  destruct vs as [|v vs'] eqn:Evs.
  - simpl in Hperm. apply Permutation_sym, Permutation_nil in Hperm. now subst.
  - rewrite <- Evs in *. unfold all_init.
    replace (match length vs with O => Fulfilled [] | S _ => Pending end) with (@Pending (list string))
      by (now rewrite Evs).
    rewrite <- fill_from_nil with (k := 0).
    apply (all_run_fulfilled ord []).
    + intros ->. apply Permutation_nil in Hperm.
      rewrite Evs in Hperm. discriminate.
    + apply Permutation_NoDup with (l := seq 0 (length vs));
        [apply Permutation_sym, Hperm | apply seq_NoDup].
    + intros j. simpl. split; intros H.
      * apply (Permutation_in _ Hperm), in_seq in H. lia.
      * apply (Permutation_in _ (Permutation_sym Hperm)), in_seq. lia.
Qed.

End PromiseAll.

(** ** [Promise.all]: one rejection rejects the combined promise *)

Section PromiseAllReject.

Local Open Scope list_scope.

Variable outs : list (string + string).
Variable k : nat.
Variable ek : string.
Hypothesis Hk : nth_error outs k = Some (inl ek).

Lemma nth_error_set_nth_ne {A} (i j : nat) (x : A) (l : list A) :
  i <> j -> nth_error (set_nth i x l) j = nth_error l j.
Proof.
  revert i j; induction l as [|y l IH]; intros i j Hij; [now destruct i|].
  destruct i as [|i], j as [|j]; simpl; try reflexivity; [congruence|].
  apply IH. congruence.
Qed.

Lemma collect_hole {A} (l : list (option A)) (j : nat) :
  nth_error l j = Some None -> collect l = None.
Proof.
  revert j; induction l as [|[x|] l IH]; intros j Hj; [now destruct j| |reflexivity].
  destruct j as [|j]; simpl in Hj; [discriminate|].
  simpl. now rewrite (IH j Hj).
Qed.

Lemma all_step_reject_inv (st : all_state) (j : nat) :
  reject_inv outs k st -> reject_inv outs k (all_step outs st j).
Proof.
  intros [[Hp Hs] | [e [He Hin]]]; unfold all_step.
  - rewrite Hp. destruct (nth_error outs j) as [[e|v]|] eqn:Ej.
    + right. exists e. split; [reflexivity|]. now apply nth_error_In with j.
    + assert (Hjk : j <> k) by congruence.
      assert (Hs' : nth_error (set_nth j (Some v) (slots st)) k = Some None)
        by (rewrite nth_error_set_nth_ne; assumption).
      left. simpl. now rewrite (collect_hole _ _ Hs').
    + left. now split.
  - rewrite He. right. eauto.
Qed.

Lemma fold_rejected (l : list nat) (st : all_state) (e : string) :
  verdict st = Rejected e -> verdict (fold_left (all_step outs) l st) = Rejected e.
Proof.
  revert st; induction l as [|j l IH]; intros st He; [exact He|].
  simpl. apply IH. unfold all_step. now rewrite He.
Qed.

Lemma all_run_rejected (l : list nat) (st : all_state) :
  reject_inv outs k st -> In k l ->
  exists e, verdict (fold_left (all_step outs) l st) = Rejected e /\ In (inl e) outs.
Proof.
  revert st; induction l as [|j l IH]; intros st Hinv Hin; [destruct Hin|].
  simpl. destruct (Nat.eq_dec j k) as [->|Hne].
  - assert (Hst : exists e, verdict (all_step outs st k) = Rejected e /\ In (inl e) outs).
    { destruct Hinv as [[Hp _] | [e [He Hi]]]; unfold all_step.
      - rewrite Hp, Hk. exists ek. split; [reflexivity|]. now apply nth_error_In with k.
      - rewrite He. eauto. }
    destruct Hst as [e [He Hi]]. exists e. split; [|exact Hi].
    now apply fold_rejected.
  - destruct Hin as [Hjk|Hin]; [congruence|].
    apply IH; [now apply all_step_reject_inv | exact Hin].
Qed.

(** A single rejected input promise rejects [Promise.all], whatever the
    completion order, with the message of a rejected input promise. *)
Lemma promise_all_rejects (ord : list nat) :
  In k ord ->
  exists e, promise_all ord outs = Rejected e /\ In (inl e) outs.
Proof.
  intros Hin. unfold promise_all. apply all_run_rejected; [|exact Hin].
  assert (Hlt : k < length outs) by (apply nth_error_Some; congruence).
  left. unfold all_init. simpl.
  destruct (length outs) as [|n] eqn:En; [lia|].
  split; [reflexivity|]. now apply nth_error_repeat.
Qed.

End PromiseAllReject.

(** ** Remote aggregation *)

Section RemoteAggregation.

Variable sanitizeABPInput : string -> string.
Variable net : string -> response.

(** Every part fetched successfully: the parts, each transformed and
    sanitized, joined with newline in input order and sanitized again. *)
Lemma list_url_all_fetched (ord : list nat) (urls : list string)
    (filter : option (string -> string)) (bodies : list string) :
  Permutation ord (seq 0 (length urls)) ->
  map net urls = map (RResponse 200) bodies ->
  makeAdBlockClientFromListURL sanitizeABPInput net ord (LUArray urls) filter
  = Fulfilled (makeAdBlockClientFromString
                 (RDString (sanitizeABPInput
                   (join_nl (map (fun b => sanitizeABPInput (apply_filter filter b)) bodies))))).
Proof.
  intros Hperm Hnet. simpl.
  assert (Houts : map (fun u => getSingleListDataFromSingleURL sanitizeABPInput net u filter) urls
                  = map inr (map (fun b => sanitizeABPInput (apply_filter filter b)) bodies)).
  { clear Hperm. revert bodies Hnet; induction urls as [|u urls IH]; intros [|b bodies] Hnet;
      simpl in Hnet; try discriminate; [reflexivity|].
    injection Hnet as Hu Hrest. simpl. rewrite (IH _ Hrest).
    unfold getSingleListDataFromSingleURL. now rewrite Hu. }
  rewrite Houts, promise_all_in_input_order; [reflexivity|].
  rewrite !length_map.
  assert (Hlen : length urls = length bodies)
    by (rewrite <- (length_map net urls), Hnet, length_map; reflexivity).
  now rewrite <- Hlen.
Qed.

(** Claim C1: for three remote parts [A, B, C] fetched with status 200 and no
    transform, whatever order the three requests complete in, the client is
    built from sanitize(sanitize(A) + "\n" + sanitize(B) + "\n" +
    sanitize(C)): each part sanitized once, joined with newline in input
    order, then sanitized again. *)
Theorem aggregation_three_parts_in_order (ord : list nat) (u1 u2 u3 A B C : string) :
  net u1 = RResponse 200 A ->
  net u2 = RResponse 200 B ->
  net u3 = RResponse 200 C ->
  Permutation ord [0; 1; 2] ->
  makeAdBlockClientFromListURL sanitizeABPInput net ord (LUArray [u1; u2; u3]) None
  = Fulfilled (makeAdBlockClientFromString
                 (RDString (sanitizeABPInput
                   (sanitizeABPInput A ++ nl ++ sanitizeABPInput B ++ nl ++ sanitizeABPInput C)))).
Proof.
  intros H1 H2 H3 Hperm.
  rewrite (list_url_all_fetched ord [u1; u2; u3] None [A; B; C]).
  - reflexivity.
  - exact Hperm.
  - simpl. now rewrite H1, H2, H3.
Qed.

(** Claim C7: in a multi-part remote aggregation, if the request for any one
    URL fails with a transport error or a status other than 200, the
    aggregation is rejected, whatever the completion order and even when
    the other parts succeed; the message names a failed request: its
    transport error, or its status code and URL. *)
Theorem aggregation_fails_on_any_failed_part (ord : list nat) (urls : list string)
    (filter : option (string -> string)) (u : string) :
  Permutation ord (seq 0 (length urls)) ->
  In u urls ->
  (exists error, net u = RTransportError error)
  \/ (exists statusCode body, net u = RResponse statusCode body /\ statusCode <> 200%Z) ->
  exists msg,
    makeAdBlockClientFromListURL sanitizeABPInput net ord (LUArray urls) filter
    = Rejected (list_url_error msg)
    /\ exists u', In u' urls /\
         ((exists error, net u' = RTransportError error /\ msg = "Request error: " ++ error)
          \/ (exists statusCode body, net u' = RResponse statusCode body
                /\ statusCode <> 200%Z
                /\ msg = "Error status code " ++ Z_to_string statusCode
                         ++ " returned for URL: " ++ u')).
Proof.
  intros Hperm Hin Hfail.
  destruct (In_nth_error _ _ Hin) as [k Hk].
  set (outs := map (fun currentURL => getSingleListDataFromSingleURL sanitizeABPInput net currentURL filter) urls).
  assert (Hout : exists ek, nth_error outs k = Some (inl ek)).
  { unfold outs. rewrite nth_error_map, Hk. simpl.
    unfold getSingleListDataFromSingleURL.
    destruct Hfail as [[error He] | [statusCode [body [He Hc]]]]; rewrite He; eauto.
    apply Z.eqb_neq in Hc. rewrite Hc. simpl. eauto. }
  destruct Hout as [ek Hek].
  assert (Hkord : In k ord).
  { apply (Permutation_in _ (Permutation_sym Hperm)), in_seq.
    assert (k < length urls) by (apply nth_error_Some; congruence). lia. }
  destruct (promise_all_rejects outs k ek Hek ord Hkord) as [e [Hall Hine]].
  exists e. split.
  - simpl. fold outs. now rewrite Hall.
  - unfold outs in Hine. apply in_map_iff in Hine as [u' [Hu' Hin']].
    exists u'. split; [exact Hin'|].
    unfold getSingleListDataFromSingleURL in Hu'.
    destruct (net u') as [error | statusCode body] eqn:Enet.
    + left. exists error. split; [reflexivity|]. now injection Hu'.
    + destruct (Z.eqb statusCode 200) eqn:Ec; simpl in Hu'; [discriminate|].
      right. exists statusCode, body. apply Z.eqb_neq in Ec.
      repeat split; [exact Ec|]. now injection Hu'.
Qed.

(** Claim C9: for a single (non-array) list URL fetched with status 200 and
    body [b], with transform [f], the client is built from
    sanitize(sanitize(f(b))): the body is sanitized inside the fetch and
    once more before client construction. *)
Theorem single_url_sanitized_twice (ord : list nat) (url body : string)
    (filter : option (string -> string)) :
  net url = RResponse 200 body ->
  makeAdBlockClientFromListURL sanitizeABPInput net ord (LUOne url) filter
  = Fulfilled (makeAdBlockClientFromString
                 (RDString (sanitizeABPInput (sanitizeABPInput (apply_filter filter body))))).
Proof.
  intros Hnet. simpl. unfold getSingleListDataFromSingleURL. now rewrite Hnet.
Qed.

End RemoteAggregation.

Lemma aggregation_three_parts_in_order_witness :
  Permutation [2; 0; 1] [0; 1; 2] /\
  makeAdBlockClientFromListURL example_sanitizer example_net [2; 0; 1]
    (LUArray [url_a; url_b; url_c]) None
  = Fulfilled (makeAdBlockClientFromString
                 (RDString (example_sanitizer
                   (example_sanitizer body_a ++ nl ++ example_sanitizer body_b
                    ++ nl ++ example_sanitizer body_c)))).
Proof.
  assert (Hp : Permutation [2; 0; 1] [0; 1; 2])
    by exact (Permutation_cons_append [0; 1] 2).
  split; [exact Hp|].
  exact (aggregation_three_parts_in_order example_sanitizer example_net [2; 0; 1]
           url_a url_b url_c body_a body_b body_c eq_refl eq_refl eq_refl Hp).
Defined.

Lemma aggregation_fails_on_any_failed_part_witness :
  Permutation [1; 0] (seq 0 (length [url_a; url_missing])) /\
  In url_missing [url_a; url_missing] /\
  exists msg,
    makeAdBlockClientFromListURL example_sanitizer example_net [1; 0]
      (LUArray [url_a; url_missing]) None
    = Rejected (list_url_error msg)
    /\ exists u', In u' [url_a; url_missing] /\
         ((exists error, example_net u' = RTransportError error /\ msg = "Request error: " ++ error)
          \/ (exists statusCode body, example_net u' = RResponse statusCode body
                /\ statusCode <> 200%Z
                /\ msg = "Error status code " ++ Z_to_string statusCode
                         ++ " returned for URL: " ++ u')).
Proof.
  assert (Hp : Permutation [1; 0] (seq 0 (length [url_a; url_missing])))
    by exact (Permutation_cons_append [0] 1).
  assert (Hin : In url_missing [url_a; url_missing]) by (simpl; auto).
  split; [exact Hp|]. split; [exact Hin|].
  apply (aggregation_fails_on_any_failed_part example_sanitizer example_net [1; 0]
           [url_a; url_missing] None url_missing Hp Hin).
  right. exists 404%Z, "". split; [reflexivity | discriminate].
Defined.

Lemma single_url_sanitized_twice_witness :
  example_net url_a = RResponse 200 body_a /\
  makeAdBlockClientFromListURL example_sanitizer example_net [] (LUOne url_a) None
  = Fulfilled (makeAdBlockClientFromString
                 (RDString (example_sanitizer (example_sanitizer body_a)))).
Proof.
  split; [reflexivity|].
  exact (single_url_sanitized_twice example_sanitizer example_net [] url_a body_a None eq_refl).
Defined.

(** ** Catalog lookup *)

(** Claim C2 (the code diverges): catalog resolution was to search
    [default], then [regions], then [malware].  The body's first statement
    [let list = new list("default").find(...)] reads the [let] binding
    [list] inside its own initializer, in its temporal dead zone: every
    call throws a [ReferenceError] before any catalog is consulted, for
    every identifier and every catalog. *)
Theorem list_uuid_lookup_throws (sanitizeABPInput : string -> string)
    (net : string -> response) (ord : list nat) (lists : value) (uuid : string) :
  makeAdBlockClientFromListUUID sanitizeABPInput net ord lists uuid
  = Throws (ReferenceError "Cannot access 'list' before initialization").
Proof. reflexivity. Qed.

(** ** Source selection *)

(** Claim C3: once the usage guard lets the driver past [Idle], the source
    is the first present of catalog identifier ([--uuid]), snapshot file
    ([--dat]), remote URL ([--http]), raw filter text ([--filter]) and local
    file path ([--filter-path]), and the built-in default catalog URL set
    when none is present ("present" is JavaScript truthiness of the option). *)
Theorem source_selection_precedence (o : options) :
  usage_guard o = true ->
  source_selection o = Some (spec_source_precedence o).
Proof.
  intros Hg. unfold source_selection, spec_source_precedence. rewrite Hg.
  simpl.
  destruct (truthy (opt_uuid o)), (truthy (opt_dat o)), (truthy (opt_http o)),
    (truthy (opt_filter o)), (truthy (opt_filterPath o)); reflexivity.
Qed.

Lemma source_selection_precedence_witness :
  usage_guard uuid_and_http_options = true /\
  source_selection uuid_and_http_options = Some (spec_source_precedence uuid_and_http_options).
Proof.
  split; [reflexivity|].
  exact (source_selection_precedence uuid_and_http_options eq_refl).
Defined.

(** The failing input of C2: the registered identifier, listed first in
    the [default] catalog, is never found. *)
Lemma list_uuid_lookup_example :
  find (fun d => String.eqb (d_uuid d) registered_uuid) (example_catalog "default")
    = Some (mkDescriptor registered_uuid (LUOne url_a))
  /\ makeAdBlockClientFromListUUID example_sanitizer example_net []
       (VCatalogs example_catalog) registered_uuid
     = Throws (ReferenceError "Cannot access 'list' before initialization").
Proof. split; reflexivity. Qed.

(** ** The result handler *)

(** Claim C4 (the code diverges): in batch mode the query for a site line
    was to be built as in single mode, (target, "https://" + host,
    resource-type hint).  On [--host www.cnet.com --list sites.txt] the
    engine's [check] receives (site, "image", "www.cnet.com"): the hint in
    the origin position and the bare host in the hint position, while the
    single mode passes (location, "https://www.cnet.com", "image"). *)
Theorem batch_check_arguments_example :
  result_handler Engine string nat example_check example_serialize example_stats
    batch_options example_fs (mkEngine []) []
  = (Ret tt, [ECheck (JStr "https://a.example/x.js") (JStr "image") (JStr "www.cnet.com") false;
              ECheck (JStr "https://b.example/y.png") (JStr "image") (JStr "www.cnet.com") false;
              ECheck (JStr "") (JStr "image") (JStr "www.cnet.com") false;
              ECounts 0 3])
  /\ JStr "image" <> JStr ("https://" ++ js_to_string (opt_host batch_options)).
Proof. split; [reflexivity | discriminate]. Qed.

(** Claim C6, as the code has it, at a concrete input: with [--stats] and
    [--output out.dat] the handler prints the parsing stats and returns;
    nothing is written. *)
Lemma stats_mode_skips_output :
  truthy (opt_output stats_output_options) = true
  /\ result_handler Engine string nat example_check example_serialize example_stats
       stats_output_options example_fs (mkEngine ["||ads.example^"]) []
     = (Ret tt, [EParsingStats 1]).
Proof. split; reflexivity. Qed.

Lemma length_split_nl (s : string) : length (split_nl s) = count_nl s + 1.
Proof.
  induction s as [|c s IH]; [reflexivity|]. simpl.
  destruct (Ascii.eqb c nl_char); simpl; [now rewrite IH|].
  destruct (split_nl s) eqn:E; [now apply split_nl_not_nil in E|]. simpl in *. exact IH.
Qed.

Lemma split_nl_trailing_nl (pre : string) :
  exists l, l <> [] /\ split_nl (pre ++ nl) = (l ++ [""])%list.
Proof.
  induction pre as [|c pre [l [Hl IH]]].
  - exists [""]. split; [discriminate|reflexivity].
  - simpl. rewrite IH. destruct (Ascii.eqb c nl_char).
    + exists ("" :: l). split; [discriminate|reflexivity].
    + destruct l as [|x l']; [congruence|].
      exists (String c x :: l'). split; [discriminate|reflexivity].
Qed.

Lemma split_nl_lines_file (ls : list string) :
  Forall (fun l => no_nl l = true) ls -> split_nl (lines_file ls) = (ls ++ [""])%list.
Proof.
  induction ls as [|l ls IH]; intros Hall; [reflexivity|].
  inversion Hall as [|? ? Hl Hrest]; subst.
  change (lines_file (l :: ls)) with (l ++ nl ++ lines_file ls).
  rewrite (split_nl_app_no_nl _ _ Hl), split_nl_nl, (IH Hrest).
  now rewrite str_app_nil_r.
Qed.

Section HandlerProps.

Variables (Client Buffer Stats : Type).
Variable check : Client -> jsval -> jsval -> jsval -> bool.
Variable serialize : Client -> Buffer.
Variable getParsingStats : Client -> Stats.

Local Abbreviation handler := (result_handler Client Buffer Stats check serialize getParsingStats).
Local Abbreviation queries := (query_phase Client Buffer Stats check).
Local Abbreviation loop := (batch_loop Client Buffer Stats check).

Lemma batch_loop_trace (o : options) (c : Client) (sites : list string)
    (m s : nat) (tr : list (event Buffer Stats)) :
  exists m' s',
    loop o c sites m s tr
    = (Ret (m', s'),
       (tr ++ map (fun site => ECheck (JStr site) (opt_filterOption o) (opt_host o)
                                 (check c (JStr site) (opt_filterOption o) (opt_host o))) sites)%list)
    /\ m' + s' = m + s + length sites.
Proof.
  revert m s tr; induction sites as [|site sites IH]; intros m s tr.
  - exists m, s. simpl. rewrite app_nil_r. split; [reflexivity | lia].
  - simpl. unfold bind, emit.
    destruct (check c (JStr site) (opt_filterOption o) (opt_host o)).
    + destruct (IH (S m) s (tr ++ [ECheck (JStr site) (opt_filterOption o) (opt_host o) true])%list)
        as [m' [s' [Hl Hc]]].
      exists m', s'. rewrite Hl, <- app_assoc. split; [reflexivity | lia].
    + destruct (IH m (S s) (tr ++ [ECheck (JStr site) (opt_filterOption o) (opt_host o) false])%list)
        as [m' [s' [Hl Hc]]].
      exists m', s'. rewrite Hl, <- app_assoc. split; [reflexivity | lia].
Qed.

(** Claim C6, corrected: the snapshot is written only outside stats mode.
    With [--stats] the handler prints the parsing stats and returns, writing
    nothing whatever [--output] holds; otherwise, once the single or batch
    query has completed without throwing, an [--output] holding a non-empty
    path makes the handler serialize the client and write it to that path. *)
Theorem output_written_unless_stats (o : options) (fs : file_system) (c : Client) :
  (truthy (opt_stats o) = true ->
     handler o fs c [] = (Ret tt, [EParsingStats (getParsingStats c)]))
  /\ (forall path,
        truthy (opt_stats o) = false ->
        opt_output o = JStr path -> path <> "" ->
        fst (queries o fs c []) = Ret tt ->
        handler o fs c []
        = (Ret tt, (snd (queries o fs c []) ++ [EWriteFile path (serialize c)])%list)).
Proof.
  split.
  - intros Hs. unfold result_handler. now rewrite Hs.
  - intros path Hs Ho Hp Hq. unfold result_handler. rewrite Hs.
    unfold bind at 1. destruct (queries o fs c []) as [r tr]. simpl in Hq. subst r.
    unfold persist_phase. rewrite Ho. simpl.
    apply String.eqb_neq in Hp. rewrite Hp. reflexivity.
Qed.

(** Claim C10: the site list is split on newline with no filtering, and the
    batch loop queries every segment: matchCount + skipCount is the number
    of segments, one more than the number of newlines.  For a file ending
    in a newline the last query is on the empty string, so for a file of
    non-empty lines each ended by a newline the counts add up to the number
    of lines plus one. *)
Theorem site_list_segments_counted (o : options) (fs : file_system) (c : Client)
    (path content : string) :
  truthy (opt_location o) = false ->
  opt_list o = JStr path ->
  fs path = Some content ->
  exists matchCount skipCount,
    queries o fs c []
    = (Ret tt, (map (fun site => ECheck (JStr site) (opt_filterOption o) (opt_host o)
                                  (check c (JStr site) (opt_filterOption o) (opt_host o)))
                    (split_nl content)
                ++ [ECounts matchCount skipCount])%list)
    /\ matchCount + skipCount = length (split_nl content)
    /\ length (split_nl content) = count_nl content + 1
    /\ (forall pre, content = pre ++ nl -> exists l, split_nl content = (l ++ [""])%list)
    /\ (forall ls, Forall (fun l => l <> "" /\ no_nl l = true) ls ->
          content = lines_file ls ->
          split_nl content = (ls ++ [""])%list /\ matchCount + skipCount = length ls + 1).
Proof.
  intros Hloc Hlist Hfs.
  destruct (batch_loop_trace o c (split_nl content) 0 0 []) as [m [s [Hloop Hcount]]].
  exists m, s. split; [|split; [|split; [|split]]].
  - unfold query_phase, bind, lift, path_of, readSiteList, readFileSync, ret.
    rewrite Hloc, Hlist, Hfs. cbn iota beta. rewrite Hloop. reflexivity.
  - lia.
  - apply length_split_nl.
  - intros pre ->. destruct (split_nl_trailing_nl pre) as [l [_ Hl]]. eauto.
  - intros ls Hls ->.
    assert (Hsplit : split_nl (lines_file ls) = (ls ++ [""])%list).
    { apply split_nl_lines_file. eapply Forall_impl; [|exact Hls]. now intros l [_ H]. }
    split; [exact Hsplit|]. rewrite Hcount, Hsplit, length_app. simpl. lia.
Qed.

End HandlerProps.

Lemma output_written_unless_stats_witness :
  result_handler Engine string nat example_check example_serialize example_stats
    stats_output_options example_fs (mkEngine ["||ads.example^"]) []
  = (Ret tt, [EParsingStats (example_stats (mkEngine ["||ads.example^"]))])
  /\ truthy (opt_stats batch_output_options) = false
  /\ opt_output batch_output_options = JStr "out.dat"
  /\ "out.dat" <> ""
  /\ fst (query_phase Engine string nat example_check batch_output_options example_fs
            (mkEngine ["||ads.example^"]) []) = Ret tt
  /\ result_handler Engine string nat example_check example_serialize example_stats
       batch_output_options example_fs (mkEngine ["||ads.example^"]) []
     = (Ret tt, (snd (query_phase Engine string nat example_check batch_output_options
                        example_fs (mkEngine ["||ads.example^"]) [])
                 ++ [EWriteFile "out.dat" (example_serialize (mkEngine ["||ads.example^"]))])%list).
Proof.
  assert (Hq : fst (query_phase Engine string nat example_check batch_output_options example_fs
                      (mkEngine ["||ads.example^"]) []) = Ret tt) by reflexivity.
  split.
  { exact (proj1 (output_written_unless_stats Engine string nat example_check example_serialize
                    example_stats stats_output_options example_fs (mkEngine ["||ads.example^"]))
                 eq_refl). }
  split; [reflexivity|]. split; [reflexivity|]. split; [discriminate|]. split; [exact Hq|].
  exact (proj2 (output_written_unless_stats Engine string nat example_check example_serialize
                  example_stats batch_output_options example_fs (mkEngine ["||ads.example^"]))
               "out.dat" eq_refl eq_refl ltac:(discriminate) Hq).
Defined.

Lemma site_list_segments_counted_witness :
  truthy (opt_location batch_options) = false /\
  opt_list batch_options = JStr "sites.txt" /\
  example_fs "sites.txt" = Some (lines_file ["https://a.example/x.js"; "https://b.example/y.png"]) /\
  exists matchCount skipCount,
    query_phase Engine string nat example_check batch_options example_fs (mkEngine []) []
    = (Ret tt, (map (fun site => ECheck (JStr site) (opt_filterOption batch_options)
                                  (opt_host batch_options)
                                  (example_check (mkEngine []) (JStr site)
                                     (opt_filterOption batch_options) (opt_host batch_options)))
                    (split_nl (lines_file ["https://a.example/x.js"; "https://b.example/y.png"]))
                ++ [ECounts matchCount skipCount])%list)
    /\ matchCount + skipCount = 3.
Proof.
  assert (Hfs : example_fs "sites.txt"
                = Some (lines_file ["https://a.example/x.js"; "https://b.example/y.png"]))
    by reflexivity.
  split; [reflexivity|]. split; [reflexivity|]. split; [exact Hfs|].
  destruct (site_list_segments_counted Engine string nat example_check batch_options example_fs (mkEngine []) "sites.txt"
              (lines_file ["https://a.example/x.js"; "https://b.example/y.png"])
              eq_refl eq_refl Hfs)
    as [m [s [Hrun [_ [_ [_ Hlines]]]]]].
  exists m, s. split; [exact Hrun|].
  destruct (Hlines ["https://a.example/x.js"; "https://b.example/y.png"]) as [_ Hc];
    [repeat constructor; discriminate | reflexivity | ].
  exact Hc.
Defined.

(** ** Local files *)

Lemma readFileSync_all_ok (fs : file_system) (paths contents : list string) :
  map fs paths = map Some contents -> readFileSync_all fs paths = inr contents.
Proof.
  revert contents; induction paths as [|p paths IH]; intros [|c contents] H;
    simpl in H; try discriminate; [reflexivity|].
  injection H as Hp Hrest. simpl. unfold readFileSync. rewrite Hp, (IH _ Hrest). reflexivity.
Qed.

(** Claim C5 fails: local rule files do not go through the sanitizer.  With
    a comment-dropping sanitizer, the client built from [rules.txt] and
    [more.txt] still holds the comment line, so it is neither the client of
    the sanitized parts nor that of their sanitized join. *)
Lemma local_file_parts_not_sanitized :
  makeAdBlockClientFromFilePath example_fs (FPArray ["rules.txt"; "more.txt"])
  = Fulfilled (mkEngine ["! Title: list a"; "||ads.example^"; "||tracker.example^"])
  /\ makeAdBlockClientFromFilePath example_fs (FPArray ["rules.txt"; "more.txt"])
     <> Fulfilled (makeAdBlockClientFromString
                     (RDArray (map example_sanitizer [body_a; body_b])))
  /\ makeAdBlockClientFromFilePath example_fs (FPArray ["rules.txt"; "more.txt"])
     <> Fulfilled (makeAdBlockClientFromString
                     (RDString (example_sanitizer (join_nl (map example_sanitizer [body_a; body_b]))))).
Proof.
  split; [reflexivity|].
  split; intros H; vm_compute in H; discriminate H.
Qed.

(** Claim C5, corrected: each local file is read synchronously as UTF-8
    text, in path order; the contents are joined with newline and split
    on newline into the engine's rule lines, with no transform and no
    sanitizer (the client is the same whatever the sanitizer). *)
Theorem local_files_joined_unsanitized (fs : file_system) (paths contents : list string) :
  map fs paths = map Some contents ->
  makeAdBlockClientFromFilePath fs (FPArray paths)
  = Fulfilled (mkEngine (split_nl (join_nl contents)))
  /\ (forall path content, fs path = Some content ->
        makeAdBlockClientFromFilePath fs (FPOne path) = Fulfilled (mkEngine (split_nl content))).
Proof.
  intros H. split.
  - simpl. now rewrite (readFileSync_all_ok _ _ _ H).
  - intros path content Hp. simpl. unfold readFileSync. now rewrite Hp.
Qed.

Lemma local_files_joined_unsanitized_witness :
  map example_fs ["rules.txt"; "more.txt"] = map Some [body_a; body_b] /\
  makeAdBlockClientFromFilePath example_fs (FPArray ["rules.txt"; "more.txt"])
  = Fulfilled (mkEngine (split_nl (join_nl [body_a; body_b]))).
Proof.
  assert (H : map example_fs ["rules.txt"; "more.txt"] = map Some [body_a; body_b])
    by reflexivity.
  split; [exact H|].
  exact (proj1 (local_files_joined_unsanitized example_fs _ _ H)).
Defined.

(* ================================================================== *)
(** * Further properties of the code *)

(** ** Fetching one list *)

Section FetchProps.

Variable sanitizeABPInput : string -> string.
Variable net : string -> response.

(** [getListBufferFromURL] and [getSingleListDataFromSingleURL] give the
    same outcome on every URL, transform and network answer. *)
Lemma getListBufferFromURL_agrees (listURL : string) (filter : option (string -> string)) :
  getListBufferFromURL sanitizeABPInput net listURL filter
  = getSingleListDataFromSingleURL sanitizeABPInput net listURL filter.
Proof. unfold getListBufferFromURL, getSingleListDataFromSingleURL. reflexivity. Qed.

(** A fetch resolves exactly when the response has status 200 (any other
    status, 2xx included, rejects), and then with the body transformed
    first and sanitized after. *)
Lemma fetch_resolves_iff_status_200 (listURL : string) (filter : option (string -> string))
    (x : string) :
  getSingleListDataFromSingleURL sanitizeABPInput net listURL filter = inr x
  <-> exists body, net listURL = RResponse 200 body
                   /\ x = sanitizeABPInput (apply_filter filter body).
Proof.
  unfold getSingleListDataFromSingleURL. split.
  - destruct (net listURL) as [e|c b]; [discriminate|].
    destruct (Z.eqb c 200) eqn:Ec; simpl; [|discriminate].
    intros H. injection H as <-. apply Z.eqb_eq in Ec. subst. eauto.
  - intros [body [-> ->]]. reflexivity.
Qed.

(** A single list URL whose request fails makes the client promise reject
    with the wrapped message of that failure. *)
Lemma single_url_failure_rejects (ord : list nat) (listURL msg : string)
    (filter : option (string -> string)) :
  getSingleListDataFromSingleURL sanitizeABPInput net listURL filter = inl msg ->
  makeAdBlockClientFromListURL sanitizeABPInput net ord (LUOne listURL) filter
  = Rejected (list_url_error msg).
Proof. intros H. simpl. now rewrite H. Qed.

Lemma fold_settled_fixed (outs : list (string + string)) (l : list nat) (st : all_state) :
  verdict st <> Pending -> fold_left (all_step outs) l st = st.
Proof.
  revert st; induction l as [|j l IH]; intros st H; [reflexivity|].
  simpl. unfold all_step at 2. destruct (verdict st) eqn:E; [congruence| |];
    apply IH; rewrite E; discriminate.
Qed.

(** An empty array of list URLs makes no request: whatever the event order,
    the client is built from the sanitized empty text. *)
Lemma empty_url_array_no_request (ord : list nat) (filter : option (string -> string)) :
  makeAdBlockClientFromListURL sanitizeABPInput net ord (LUArray []) filter
  = Fulfilled (makeAdBlockClientFromString (RDString (sanitizeABPInput ""))).
Proof.
  simpl. unfold promise_all. rewrite fold_settled_fixed by (simpl; discriminate).
  reflexivity.
Qed.

End FetchProps.

(** ** [Promise.all]: pending until every part is in, first failure wins *)

Section PromiseAllPending.

Local Open Scope list_scope.

Variable outs : list (string + string).
Variable k : nat.

Lemma all_run_pending (l : list nat) (st : all_state) :
  ~ In k l ->
  (forall j e, In j l -> nth_error outs j <> Some (inl e)) ->
  verdict st = Pending -> nth_error (slots st) k = Some None ->
  verdict (fold_left (all_step outs) l st) = Pending
  /\ nth_error (slots (fold_left (all_step outs) l st)) k = Some None.
Proof.
  revert st; induction l as [|j l IH]; intros st Hk Hok Hp Hs; [now split|].
  simpl. apply IH.
  - intros H. apply Hk. now right.
  - intros j' e Hj'. apply Hok. now right.
  - unfold all_step. rewrite Hp.
    destruct (nth_error outs j) as [[e|v]|] eqn:Ej; [| |exact Hp].
    + exfalso. apply (Hok j e); [now left | exact Ej].
    + assert (Hjk : j <> k) by (intros ->; apply Hk; now left).
      simpl. rewrite (collect_hole _ k); [reflexivity|].
      rewrite nth_error_set_nth_ne; assumption.
  - unfold all_step. rewrite Hp.
    destruct (nth_error outs j) as [[e|v]|] eqn:Ej; [exact Hs| |exact Hs].
    assert (Hjk : j <> k) by (intros ->; apply Hk; now left).
    simpl. now rewrite nth_error_set_nth_ne.
Qed.

Lemma all_init_pending (n : nat) :
  k < n -> verdict (all_init n) = Pending /\ nth_error (slots (all_init n)) k = Some None.
Proof.
  intros Hk. unfold all_init. destruct n as [|n]; [lia|].
  split; [reflexivity|]. exact (nth_error_repeat (A := option string) None Hk).
Qed.

End PromiseAllPending.

Section AggregationOrder.

Variable sanitizeABPInput : string -> string.
Variable net : string -> response.

(** If one request never completes (its index is missing from the
    completion order) and no completed request failed, the client promise
    stays pending: there is no timeout. *)
Lemma hung_request_stays_pending (ord : list nat) (urls : list string)
    (filter : option (string -> string)) (k : nat) :
  k < length urls -> ~ In k ord ->
  (forall j u, In j ord -> nth_error urls j = Some u ->
     exists body, net u = RResponse 200 body) ->
  makeAdBlockClientFromListURL sanitizeABPInput net ord (LUArray urls) filter = Pending.
Proof.
  intros Hk Hnot Hok. simpl. unfold promise_all.
  set (outs := map (fun currentURL => getSingleListDataFromSingleURL sanitizeABPInput net currentURL filter) urls).
  assert (Hlen : length outs = length urls) by apply length_map.
  destruct (all_init_pending k (length outs)) as [Hp Hs]; [lia|].
  destruct (all_run_pending outs k ord (all_init (length outs)) Hnot) as [Hv _];
    [| exact Hp | exact Hs |].
  - intros j e Hj Hje. unfold outs in Hje. rewrite nth_error_map in Hje.
    destruct (nth_error urls j) as [u|] eqn:Eu; [|discriminate].
    destruct (Hok j u Hj Eu) as [body Hb]. simpl in Hje.
    unfold getSingleListDataFromSingleURL in Hje. rewrite Hb in Hje. discriminate.
  - now rewrite Hv.
Qed.


End AggregationOrder.

(** ** Client construction from text *)

Lemma no_nl_app (a b : string) : no_nl (a ++ b) = no_nl a && no_nl b.
Proof. induction a as [|c a IH]; simpl; [reflexivity|]. now rewrite IH, andb_assoc. Qed.

Lemma split_nl_pieces_no_nl (s : string) : Forall (fun x => no_nl x = true) (split_nl s).
Proof.
  induction s as [|c s IH]; simpl; [now repeat constructor|].
  destruct (Ascii.eqb c nl_char) eqn:Ec; [now constructor|].
  destruct (split_nl s) as [|x xs] eqn:E; [now apply split_nl_not_nil in E|].
  inversion IH as [|? ? Hx Hxs]; subst.
  constructor; [|exact Hxs]. simpl. now rewrite Ec, Hx.
Qed.

(** An array of newline-free rule lines reaches the engine unchanged: the
    join with newline and the split on newline cancel out.  An empty array
    gives the engine a single empty line. *)
Lemma rule_array_round_trip (rules : list string) :
  Forall (fun x => no_nl x = true) rules ->
  makeAdBlockClientFromString (RDArray rules)
  = mkEngine (match rules with [] => [""] | _ => rules end).
Proof.
  intros H. destruct rules as [|r rs]; [reflexivity|].
  unfold makeAdBlockClientFromString. rewrite split_join_nl; [reflexivity|discriminate|exact H].
Qed.


(** ** The registered transform on any input *)

(** Its output lines are the input lines from the fifth on, in order, each
    prefixed with "||"; an input of four lines or fewer gives the empty
    text. *)
Lemma domain_list_filter_lines (input : string) :
  (length (split_nl input) <= 4 -> domain_list_filter input = "")
  /\ (4 < length (split_nl input) ->
      split_nl (domain_list_filter input)
      = map (fun line => "||" ++ line) (skipn 4 (split_nl input))).
Proof.
  unfold domain_list_filter, slice. split.
  - intros H.
    assert (Hnil : skipn 4 (split_nl input) = [])
      by (apply length_zero_iff_nil; rewrite length_skipn; lia).
    now rewrite Hnil.
  - intros H. apply split_join_nl.
    + intros Hn. apply map_eq_nil in Hn. apply length_zero_iff_nil in Hn.
      rewrite length_skipn in Hn. lia.
    + apply Forall_map.
      pose proof (split_nl_pieces_no_nl input) as Hp.
      rewrite <- (firstn_skipn 4 (split_nl input)) in Hp.
      apply Forall_app in Hp as [_ Hsk].
      eapply Forall_impl; [|exact Hsk]. intros x Hx. simpl. exact Hx.
Qed.

(** ** Local files *)

(** The first unreadable path, in array order, rejects the client promise
    with its read error; no client is built. *)
Lemma first_unreadable_file_rejects (fs : file_system) (pre post : list string)
    (contents : list string) (path : string) :
  map fs pre = map Some contents -> fs path = None ->
  makeAdBlockClientFromFilePath fs (FPArray (pre ++ path :: post)) = Rejected (enoent path).
Proof.
  intros Hpre Hp. simpl.
  assert (H : readFileSync_all fs (pre ++ path :: post) = inl (enoent path)).
  { revert contents Hpre; induction pre as [|q pre IH]; intros [|c cs] Hpre;
      simpl in Hpre; try discriminate.
    - simpl. unfold readFileSync. now rewrite Hp.
    - injection Hpre as Hq Hrest. simpl. unfold readFileSync at 1. rewrite Hq.
      now rewrite (IH _ Hrest). }
  now rewrite H.
Qed.

(** ** Snapshots *)

Lemma firstn_min_length {A} (n : nat) (l : list A) : firstn (Nat.min n (length l)) l = firstn n l.
Proof.
  revert n; induction l as [|x l IH]; intros [|n]; simpl; try reflexivity.
  now rewrite IH.
Qed.

(** [data.buffer.slice(data.byteOffset, data.byteOffset + data.byteLength)]
    is exactly the bytes of the [Buffer], wherever they sit in its pool. *)
Lemma array_buffer_slice_view (b : node_buffer) :
  array_buffer_slice (nb_pool b) (nb_byteOffset b) (nb_byteOffset b + nb_byteLength b)
  = buffer_bytes b.
Proof.
  destruct b as [pool off len]. unfold array_buffer_slice, buffer_bytes. simpl.
  destruct (Nat.le_gt_cases (length pool) off) as [Hge|Hlt].
  - replace (Nat.min off (length pool)) with (length pool) by lia.
    rewrite skipn_all. rewrite skipn_all2 by lia. now rewrite !firstn_nil.
  - replace (Nat.min off (length pool)) with off by lia.
    replace (Nat.min (off + len) (length pool) - off) with (Nat.min len (length (skipn off pool)))
      by (rewrite length_skipn; lia).
    apply firstn_min_length.
Qed.

(** A readable snapshot file gives an engine constructed with no rules and
    deserialized with exactly the file's bytes; an unreadable one rejects
    with the read error. *)
Lemma dat_file_client (fsb : binary_file_system) (datFilePath : string) :
  makeAdBlockClientFromDATFile fsb datFilePath
  = match fsb datFilePath with
    | Some data => Fulfilled (mkSnapshotClient [] (buffer_bytes data))
    | None => Rejected (enoent datFilePath)
    end.
Proof.
  unfold makeAdBlockClientFromDATFile. destruct (fsb datFilePath) as [data|]; [|reflexivity].
  now rewrite array_buffer_slice_view.
Qed.

(** ** The driver's first step *)

(** Whenever the driver gets past the usage guard with a catalog
    identifier, or with no snapshot file but a remote URL, raw filter text
    or filter path, evaluating the call's argument [parseOptions] throws a
    [ReferenceError] before any client is built. *)
Lemma driver_parse_options_throws (o : options) :
  usage_guard o = true ->
  (truthy (opt_uuid o)
   || negb (truthy (opt_dat o))
      && (truthy (opt_http o) || truthy (opt_filter o) || truthy (opt_filterPath o))) = true ->
  driver_first_step o = inl (ReferenceError "parseOptions is not defined").
Proof.
  intros Hg Hsrc. unfold driver_first_step, source_selection. rewrite Hg.
  destruct (truthy (opt_uuid o)); [reflexivity|].
  destruct (truthy (opt_dat o)); [discriminate|].
  destruct (truthy (opt_http o)); [reflexivity|].
  destruct (truthy (opt_filter o)); [reflexivity|].
  destruct (truthy (opt_filterPath o)); [reflexivity|discriminate].
Qed.

Lemma driver_parse_options_throws_witness :
  usage_guard uuid_and_http_options = true /\
  driver_first_step uuid_and_http_options = inl (ReferenceError "parseOptions is not defined").
Proof.
  split; [reflexivity|].
  exact (driver_parse_options_throws uuid_and_http_options eq_refl eq_refl).
Defined.

(** The only client-building calls the driver ever makes are the snapshot
    file and the built-in default lists; without the guard it makes none
    and [p] stays the usage rejection. *)
Lemma driver_reachable_calls (o : options) :
  (usage_guard o = false -> driver_first_step o = inr (StartRejected usage_message))
  /\ (forall call, driver_first_step o = inr (StartCall call) ->
        call = CallDATFile (opt_dat o) \/ call = CallDefaultLists).
Proof.
  unfold driver_first_step, source_selection. split.
  - intros Hg. now rewrite Hg.
  - intros call. destruct (usage_guard o); [|discriminate].
    destruct (truthy (opt_uuid o)); [discriminate|].
    destruct (truthy (opt_dat o)); [intros H; injection H as <-; now left|].
    destruct (truthy (opt_http o)); [discriminate|].
    destruct (truthy (opt_filter o)); [discriminate|].
    destruct (truthy (opt_filterPath o)); [discriminate|].
    intros H; injection H as <-; now right.
Qed.

(** ** The result handler *)

Section HandlerMore.

Variables (Client Buffer Stats : Type).
Variable check : Client -> jsval -> jsval -> jsval -> bool.
Variable serialize : Client -> Buffer.
Variable getParsingStats : Client -> Stats.

Local Abbreviation handler := (result_handler Client Buffer Stats check serialize getParsingStats).
Local Abbreviation queries := (query_phase Client Buffer Stats check).

(** Single mode: exactly one query, (location, "https://" + host, hint),
    no site list read and no counts; nothing else happens without
    [--output]. *)
Lemma single_mode_one_query (o : options) (fs : file_system) (c : Client) :
  truthy (opt_stats o) = false -> truthy (opt_location o) = true ->
  truthy (opt_output o) = false ->
  handler o fs c []
  = (Ret tt, [ECheck (opt_location o) (JStr ("https://" ++ js_to_string (opt_host o)))
                     (opt_filterOption o)
                     (check c (opt_location o) (JStr ("https://" ++ js_to_string (opt_host o)))
                            (opt_filterOption o))]).
Proof.
  intros Hs Hl Ho. unfold result_handler, query_phase, persist_phase.
  rewrite Hs, Hl, Ho. reflexivity.
Qed.

(** Batch mode with an unreadable site list: the handler throws the read
    error at once; no query is run and nothing is written, even with
    [--output]. *)
Lemma unreadable_site_list_throws (o : options) (fs : file_system) (c : Client) (path : string) :
  truthy (opt_stats o) = false -> truthy (opt_location o) = false ->
  opt_list o = JStr path -> fs path = None ->
  handler o fs c [] = (Throw (enoent path), []).
Proof.
  intros Hs Hl Hp Hf. unfold result_handler, query_phase.
  rewrite Hs, Hl, Hp. unfold bind, lift, path_of, readSiteList, readFileSync, ret.
  rewrite Hf. reflexivity.
Qed.

Lemma batch_loop_counts (o : options) (c : Client) (sites : list string) (m s : nat)
    (tr : list (event Buffer Stats)) :
  exists tr',
    batch_loop Client Buffer Stats check o c sites m s tr
    = (Ret (m + length (filter (fun site => check c (JStr site) (opt_filterOption o) (opt_host o)) sites),
            s + length (filter (fun site => negb (check c (JStr site) (opt_filterOption o) (opt_host o))) sites)),
       tr').
Proof.
  revert m s tr; induction sites as [|site sites IH]; intros m s tr.
  - exists tr. simpl. now rewrite !Nat.add_0_r.
  - simpl. unfold bind, emit.
    destruct (check c (JStr site) (opt_filterOption o) (opt_host o)); simpl.
    + destruct (IH (S m) s (tr ++ [ECheck (JStr site) (opt_filterOption o) (opt_host o) true])%list)
        as [tr' H]. exists tr'. rewrite H.
      now rewrite Nat.add_succ_r.
    + destruct (IH m (S s) (tr ++ [ECheck (JStr site) (opt_filterOption o) (opt_host o) false])%list)
        as [tr' H]. exists tr'. rewrite H.
      now rewrite (Nat.add_succ_r s).
Qed.

(** Batch mode: the reported match count is the number of site-list
    segments the engine matches, the skip count the number it does not. *)
Lemma batch_counts_are_matches (o : options) (fs : file_system) (c : Client)
    (path content : string) :
  truthy (opt_location o) = false -> opt_list o = JStr path -> fs path = Some content ->
  exists tr,
    queries o fs c []
    = (Ret tt, (tr ++ [ECounts
         (length (filter (fun site => check c (JStr site) (opt_filterOption o) (opt_host o))
                         (split_nl content)))
         (length (filter (fun site => negb (check c (JStr site) (opt_filterOption o) (opt_host o)))
                         (split_nl content)))])%list).
Proof.
  intros Hl Hp Hf.
  destruct (batch_loop_counts o c (split_nl content) 0 0 []) as [tr H].
  exists tr. unfold query_phase, bind, lift, path_of, readSiteList, readFileSync, ret.
  rewrite Hl, Hp, Hf. cbn iota beta. rewrite H. reflexivity.
Qed.

(** [--output] given without a value ([true]): once the queries are done
    the handler throws a [TypeError] and writes nothing. *)
Lemma output_flag_without_path_throws (o : options) (fs : file_system) (c : Client) :
  truthy (opt_stats o) = false -> opt_output o = JTrue ->
  fst (queries o fs c []) = Ret tt ->
  fst (handler o fs c []) = Throw "TypeError [ERR_INVALID_ARG_TYPE]: The path argument must be of type string"
  /\ snd (handler o fs c []) = snd (queries o fs c []).
Proof.
  intros Hs Ho Hq. unfold result_handler, persist_phase. rewrite Hs, Ho.
  simpl truthy. cbn iota. unfold bind, lift, path_of, throw.
  destruct (queries o fs c []) as [r tr]. simpl in Hq. subst r.
  split; reflexivity.
Qed.

End HandlerMore.

(** ** Witnesses *)

Lemma fetch_resolves_iff_status_200_witness :
  getSingleListDataFromSingleURL example_sanitizer example_net url_a None
  = inr (example_sanitizer body_a).
Proof.
  apply (proj2 (fetch_resolves_iff_status_200 example_sanitizer example_net url_a None _)).
  exists body_a. split; reflexivity.
Defined.

Lemma single_url_failure_rejects_witness :
  getSingleListDataFromSingleURL example_sanitizer example_net url_missing None
  = inl ("Error status code 404 returned for URL: " ++ url_missing) /\
  makeAdBlockClientFromListURL example_sanitizer example_net [] (LUOne url_missing) None
  = Rejected (list_url_error ("Error status code 404 returned for URL: " ++ url_missing)).
Proof.
  assert (H : getSingleListDataFromSingleURL example_sanitizer example_net url_missing None
              = inl ("Error status code 404 returned for URL: " ++ url_missing)) by reflexivity.
  split; [exact H|].
  exact (single_url_failure_rejects example_sanitizer example_net [] url_missing _ None H).
Defined.

Lemma hung_request_stays_pending_witness :
  1 < length [url_a; url_b] /\ ~ In 1 [0] /\
  makeAdBlockClientFromListURL example_sanitizer example_net [0] (LUArray [url_a; url_b]) None
  = Pending.
Proof.
  assert (H1 : 1 < length [url_a; url_b]) by (simpl; lia).
  assert (H2 : ~ In 1 [0]) by (simpl; lia).
  split; [exact H1|]. split; [exact H2|].
  apply (hung_request_stays_pending example_sanitizer example_net [0] [url_a; url_b] None 1 H1 H2).
  intros j u Hj Hu. destruct Hj as [<-|[]]. injection Hu as <-. exists body_a. reflexivity.
Defined.


Lemma rule_array_round_trip_witness :
  Forall (fun x => no_nl x = true) ["||ads.example^"; "##.banner"] /\
  makeAdBlockClientFromString (RDArray ["||ads.example^"; "##.banner"])
  = mkEngine ["||ads.example^"; "##.banner"].
Proof.
  assert (H : Forall (fun x => no_nl x = true) ["||ads.example^"; "##.banner"])
    by (repeat constructor).
  split; [exact H|]. exact (rule_array_round_trip _ H).
Defined.

Lemma domain_list_filter_lines_witness :
  4 < length (split_nl (join_nl ["a"; "b"; "c"; "d"; "x.com"; "y.org"])) /\
  split_nl (domain_list_filter (join_nl ["a"; "b"; "c"; "d"; "x.com"; "y.org"]))
  = ["||x.com"; "||y.org"].
Proof.
  assert (H : 4 < length (split_nl (join_nl ["a"; "b"; "c"; "d"; "x.com"; "y.org"])))
    by (vm_compute; lia).
  split; [exact H|].
  exact (proj2 (domain_list_filter_lines _) H).
Defined.

Lemma first_unreadable_file_rejects_witness :
  example_fs "missing.txt" = None /\
  makeAdBlockClientFromFilePath example_fs (FPArray (["rules.txt"] ++ "missing.txt" :: ["more.txt"]))
  = Rejected (enoent "missing.txt").
Proof.
  assert (H : example_fs "missing.txt" = None) by reflexivity.
  split; [exact H|].
  exact (first_unreadable_file_rejects example_fs ["rules.txt"] ["more.txt"] [body_a] _ eq_refl H).
Defined.

Lemma driver_reachable_calls_witness :
  usage_guard (mkOptions JUndefined JUndefined JUndefined JUndefined JUndefined
                 (JStr "www.cnet.com") JUndefined JUndefined JUndefined JUndefined
                 (JStr "image")) = false /\
  driver_first_step (mkOptions JUndefined JUndefined JUndefined JUndefined JUndefined
                       (JStr "www.cnet.com") JUndefined JUndefined JUndefined JUndefined
                       (JStr "image"))
  = inr (StartRejected usage_message) /\
  driver_first_step batch_options = inr (StartCall CallDefaultLists) /\
  (CallDefaultLists = CallDATFile (opt_dat batch_options) \/ CallDefaultLists = CallDefaultLists).
Proof.
  assert (H : driver_first_step batch_options = inr (StartCall CallDefaultLists)) by reflexivity.
  split; [reflexivity|]. split.
  { exact (proj1 (driver_reachable_calls
                   (mkOptions JUndefined JUndefined JUndefined JUndefined JUndefined
                      (JStr "www.cnet.com") JUndefined JUndefined JUndefined JUndefined
                      (JStr "image"))) eq_refl). }
  split; [exact H|].
  exact (proj2 (driver_reachable_calls batch_options) _ H).
Defined.

Lemma single_mode_one_query_witness :
  result_handler Engine string nat example_check example_serialize example_stats
    uuid_and_http_options example_fs (mkEngine []) []
  = (Ret tt, [ECheck (JStr "https://s0.2mdn.net/instream/html5/ima3.js")
                     (JStr "https://www.cnet.com") (JStr "image") false]).
Proof.
  exact (single_mode_one_query Engine string nat example_check example_serialize example_stats
           uuid_and_http_options example_fs (mkEngine []) eq_refl eq_refl eq_refl).
Defined.

Lemma unreadable_site_list_throws_witness :
  result_handler Engine string nat example_check example_serialize example_stats
    batch_output_options (fun _ => None) (mkEngine []) []
  = (Throw (enoent "sites.txt"), []).
Proof.
  exact (unreadable_site_list_throws Engine string nat example_check example_serialize
           example_stats batch_output_options (fun _ => None) (mkEngine []) "sites.txt"
           eq_refl eq_refl eq_refl eq_refl).
Defined.

Lemma batch_counts_are_matches_witness :
  exists tr,
    query_phase Engine string nat example_check batch_options example_fs (mkEngine []) []
    = (Ret tt, (tr ++ [ECounts 0 3])%list).
Proof.
  exact (batch_counts_are_matches Engine string nat example_check batch_options example_fs
           (mkEngine []) "sites.txt" _ eq_refl eq_refl eq_refl).
Defined.

Lemma output_flag_without_path_throws_witness :
  fst (result_handler Engine string nat example_check example_serialize example_stats
         batch_output_flag_options example_fs (mkEngine []) [])
  = Throw "TypeError [ERR_INVALID_ARG_TYPE]: The path argument must be of type string".
Proof.
  exact (proj1 (output_flag_without_path_throws Engine string nat example_check example_serialize
                  example_stats batch_output_flag_options example_fs (mkEngine [])
                  eq_refl eq_refl eq_refl)).
Defined.
